(** * Knowledge-graph MCP server: a shallow embedding of
      [mcp/knowledge-graph/server.py]

    The Python module keeps one process-wide dictionary

      knowledge_graph = {"entities": {}, "relations": []}

    and a single entry point [call_tool(name, arguments)] that branches on
    the tool name.  Here the dictionary is a record that is threaded through
    [call_tool] explicitly; every branch returns the state it leaves behind
    together with what the Python code returns (or raises).

    Modelling choices, all taken from the source:
    - a Python [dict] is an insertion-ordered association list ([odict]):
      [d[k] = v] replaces the value in place when [k] is present and appends
      at the end otherwise, iteration follows that order;
    - a Python [set] of strings is a [gset string]; the order in which
      Python iterates a set is not fixed by the language, the model iterates
      in the order of [elements];
    - [datetime.now().isoformat()] is the clock reading [now], an input of
      [call_tool];
    - the argument bag is typed by the tool's [inputSchema]: required
      fields are present, optional ones are an [option] and are read with
      the default of [arguments.get];  numbers are integers;
    - the text handed to [TextContent] is either a message string, written
      out character by character, or the structure given to [json.dumps]. *)

From Stdlib Require Import ZArith String Ascii List.
From stdpp Require Import base decidable option list gmap strings.

Local Open Scope string_scope.
Local Open Scope list_scope.
Local Open Scope Z_scope.

(** ** JSON values carried by property bags *)

#[local] Unset Elimination Schemes.

Inductive json : Type :=
| JNull
| JBool (b : bool)
| JNum (n : Z)
| JStr (s : string)
| JArr (items : list json)
| JObj (fields : list (string * json)).

#[local] Set Elimination Schemes.

(** ** Python dictionaries with their insertion order *)

Module OrderedDict.
Section Dict.
Context {V : Type}.

Definition odict := list (string * V).

(** [d.get(k)] *)
Fixpoint get (k : string) (d : list (string * V)) : option V :=
  match d with
  | [] => None
  | (k', v) :: d' => if String.eqb k k' then Some v else get k d'
  end.

(** [k in d] *)
Definition mem (k : string) (d : list (string * V)) : bool :=
  match get k d with Some _ => true | None => false end.

(** [d[k] = v] *)
Fixpoint set (k : string) (v : V) (d : list (string * V)) : list (string * V) :=
  match d with
  | [] => [(k, v)]
  | (k', v') :: d' =>
      if String.eqb k k' then (k', v) :: d' else (k', v') :: set k v d'
  end.

(** [list(d.keys())], [list(d.values())], [len(d)] *)
Definition keys (d : list (string * V)) : list string := map fst d.
Definition values (d : list (string * V)) : list V := map snd d.
Definition len (d : list (string * V)) : Z := Z.of_nat (length d).
End Dict.
Arguments odict : clear implicits.
End OrderedDict.

Abbreviation odict := OrderedDict.odict.

(** ** The graph store *)

Record entity_data := mk_entity {
  ent_type : string;
  ent_properties : odict json;
  ent_created_at : string
}.

Record relation_data := mk_relation {
  rel_from : string;
  rel_relation : string;
  rel_to : string;
  rel_properties : odict json;
  rel_created_at : string
}.

Record graph := mk_graph {
  entities : odict entity_data;
  relations : list relation_data
}.

(** The module-level initial value of [knowledge_graph]. *)
Definition knowledge_graph : graph := {| entities := []; relations := [] |}.

(** ** Strings: [str.lower] and the [in] operator

    Strings are sequences of 8-bit characters; [lower] is [str.lower] on
    them (the letters A..Z are mapped to a..z, everything else is kept). *)

Definition lower_char (c : ascii) : ascii :=
  let n := nat_of_ascii c in
  if ((65 <=? n) && (n <=? 90))%nat then ascii_of_nat (n + 32) else c.

Fixpoint lower (s : string) : string :=
  match s with
  | EmptyString => EmptyString
  | String c s' => String (lower_char c) (lower s')
  end.

(** [needle in hay] *)
Fixpoint contains (needle hay : string) : bool :=
  String.prefix needle hay
  || match hay with
     | EmptyString => false
     | String _ hay' => contains needle hay'
     end.

(** ** Requests and responses *)

(** A tool name together with its argument bag. *)
Inductive request :=
| kg_add_entity (entity type : string) (properties : option (odict json))
| kg_add_relation (from_entity relation to_entity : string)
                  (properties : option (odict json))
| kg_query (query : string) (query_type : option string) (limit : option Z)
| kg_get_neighbors (entity : string) (depth : option Z)
| kg_stats
| unknown_tool (name : string).

(** One element of [results] in the [kg_query] branch. *)
Inductive query_result :=
| EntityResult (id type : string) (properties : odict json)
| RelationResult (from relation to : string).

(** One element of [neighbor_data]. *)
Record neighbor := mk_neighbor { nb_id : string; nb_type : string }.

Record stats := mk_stats {
  entities_count : Z;
  relations_count : Z;
  entity_types : odict Z;
  relation_types : odict Z
}.

(** The [text] of the single [TextContent] a branch returns: a message, or
    the object that the branch passes to [json.dumps]. *)
Inductive content :=
| Text (text : string)
| QueryJson (query : string) (results : list query_result)
| NeighborsJson (entity : string) (depth : Z) (neighbors : list neighbor)
| StatsJson (s : stats).

Inductive outcome :=
| Return (c : content)
| Raise (exc : string).

(** ** The branches of [call_tool] *)

Import OrderedDict.

(** [kg_query], [query_type == "entity"]: the loop over
    [knowledge_graph["entities"].items()], with its [break]. *)
Fixpoint query_entities (query : string) (limit : Z)
    (items : odict entity_data) (results : list query_result)
    : list query_result :=
  match items with
  | [] => results
  | (entity_id, entity_data) :: items' =>
      if contains query (lower entity_id)
         || contains query (lower (ent_type entity_data))
      then
        let results :=
          results ++ [EntityResult entity_id (ent_type entity_data)
                                   (ent_properties entity_data)] in
        if Z.of_nat (length results) >=? limit then results
        else query_entities query limit items' results
      else query_entities query limit items' results
  end.

(** [kg_query], [query_type == "relation"]: the loop over
    [knowledge_graph["relations"]], with its [break]. *)
Fixpoint query_relations (query : string) (limit : Z)
    (rels : list relation_data) (results : list query_result)
    : list query_result :=
  match rels with
  | [] => results
  | rel :: rels' =>
      if contains query (lower (rel_relation rel)) then
        let results :=
          results ++ [RelationResult (rel_from rel) (rel_relation rel)
                                     (rel_to rel)] in
        if Z.of_nat (length results) >=? limit then results
        else query_relations query limit rels' results
      else query_relations query limit rels' results
  end.

(** [kg_get_neighbors]: the body of the inner loop, for one [rel].  The
    pair is ([neighbors], [next_level]). *)
Definition scan_relation (current_level : gset string)
    (acc : gset string * gset string) (rel : relation_data)
    : gset string * gset string :=
  let acc :=
    if bool_decide (rel_from rel ∈ current_level)
    then ({[rel_to rel]} ∪ acc.1, {[rel_to rel]} ∪ acc.2) else acc in
  if bool_decide (rel_to rel ∈ current_level)
  then ({[rel_from rel]} ∪ acc.1, {[rel_from rel]} ∪ acc.2) else acc.

(** One iteration of [for _ in range(depth)]: the pair is ([neighbors],
    [current_level]). *)
Definition bfs_round (rels : list relation_data)
    (st : gset string * gset string) : gset string * gset string :=
  fold_left (scan_relation st.2) rels (st.1, ∅).

(** [for _ in range(depth)] run [n] times. *)
Fixpoint bfs_rounds (n : nat) (rels : list relation_data)
    (st : gset string * gset string) : gset string * gset string :=
  match n with
  | O => st
  | S n' => bfs_rounds n' rels (bfs_round rels st)
  end.

(** The loop that builds [neighbor_data] from the ids it iterates. *)
Definition neighbor_data (ents : odict entity_data) (ids : list string)
    : list neighbor :=
  omap (fun id =>
          match get id ents with
          | Some d => Some {| nb_id := id; nb_type := ent_type d |}
          | None => None
          end) ids.

(** [kg_stats]: [h[k] = h.get(k, 0) + 1] *)
Definition count_in (h : odict Z) (k : string) : odict Z :=
  set k (default 0 (get k h) + 1) h.

Definition entity_type_counts (ents : odict entity_data) : odict Z :=
  fold_left (fun h d => count_in h (ent_type d)) (values ents) [].

Definition relation_type_counts (rels : list relation_data) : odict Z :=
  fold_left (fun h rel => count_in h (rel_relation rel)) rels [].

(** The [stats] object that the [kg_stats] branch builds, and its
    [relations_count] read off a state. *)
Definition stats_of (kg : graph) : stats :=
  {| entities_count := len (entities kg);
     relations_count := Z.of_nat (length (relations kg));
     entity_types := entity_type_counts (entities kg);
     relation_types := relation_type_counts (relations kg) |}.

Definition relations_count_of (kg : graph) : Z := relations_count (stats_of kg).

(** ** [call_tool]

    [now] is what [datetime.now().isoformat()] returns during the call. *)
Definition call_tool (now : string) (req : request) (kg : graph)
    : graph * outcome :=
  match req with
  | kg_add_entity entity_id type properties =>
      let entity_data :=
        {| ent_type := type;
           ent_properties := default [] properties;
           ent_created_at := now |} in
      ({| entities := set entity_id entity_data (entities kg);
          relations := relations kg |},
       Return (Text ("Added entity '" +:+ entity_id +:+ "' of type '"
                       +:+ ent_type entity_data +:+ "'")))
  | kg_add_relation from_entity relation to_entity properties =>
      if negb (mem from_entity (entities kg)) then
        (kg, Return (Text ("Error: Entity '" +:+ from_entity
                             +:+ "' not found. Add it first with kg_add_entity.")))
      else if negb (mem to_entity (entities kg)) then
        (kg, Return (Text ("Error: Entity '" +:+ to_entity
                             +:+ "' not found. Add it first with kg_add_entity.")))
      else
        let relation_data :=
          {| rel_from := from_entity;
             rel_relation := relation;
             rel_to := to_entity;
             rel_properties := default [] properties;
             rel_created_at := now |} in
        ({| entities := entities kg;
            relations := relations kg ++ [relation_data] |},
         Return (Text ("Added relation: " +:+ from_entity +:+ " --[" +:+ relation
                         +:+ "]--> " +:+ to_entity)))
  | kg_query query0 query_type limit =>
      let query := lower query0 in
      let query_type := default "entity" query_type in
      let limit := default 10 limit in
      let results :=
        if String.eqb query_type "entity" then
          query_entities query limit (entities kg) []
        else if String.eqb query_type "relation" then
          query_relations query limit (relations kg) []
        else [] in
      (kg, Return (QueryJson query0 results))
  | kg_get_neighbors entity depth =>
      let depth := default 1 depth in
      if negb (mem entity (entities kg)) then
        (kg, Return (Text ("Error: Entity '" +:+ entity +:+ "' not found")))
      else
        let neighbors :=
          (bfs_rounds (Z.to_nat depth) (relations kg) (∅, {[entity]})).1 in
        let neighbors := neighbors ∖ {[entity]} in
        (kg, Return (NeighborsJson entity depth
                       (neighbor_data (entities kg) (elements neighbors))))
  | kg_stats =>
      (kg, Return (StatsJson (stats_of kg)))
  | unknown_tool name =>
      (kg, Raise ("Unknown tool: " +:+ name))
  end.

(** Requests served one after the other, each with its clock reading; the
    outcomes are collected in order. *)
Fixpoint serve (reqs : list (string * request)) (kg : graph)
    : graph * list outcome :=
  match reqs with
  | [] => (kg, [])
  | (now, req) :: reqs' =>
      let '(kg', out) := call_tool now req kg in
      let '(kg'', outs) := serve reqs' kg' in
      (kg'', out :: outs)
  end.

(** The end-to-end scenario: three entities and two relations. *)
Definition scenario : list (string * request) :=
  [("t1", kg_add_entity "A" "person" None);
   ("t2", kg_add_entity "B" "person" None);
   ("t3", kg_add_entity "C" "concept" None);
   ("t4", kg_add_relation "A" "knows" "B" None);
   ("t5", kg_add_relation "B" "related_to" "C" None)].

(** An outcome that reports a failure: an exception, or a message that
    starts with [Error:]. *)
Definition is_error (out : outcome) : bool :=
  match out with
  | Raise _ => true
  | Return (Text msg) => String.prefix "Error:" msg
  | Return _ => false
  end.

(** Some stored relation joins [e] and [d], in either direction. *)
Definition linked (kg : graph) (e d : string) : bool :=
  existsb (fun rel =>
             (String.eqb (rel_from rel) e && String.eqb (rel_to rel) d)
             || (String.eqb (rel_from rel) d && String.eqb (rel_to rel) e))
          (relations kg).

(** Both ends of every stored relation are keys of the entity map. *)
Definition endpoints_resolve (kg : graph) : Prop :=
  Forall (fun rel => mem (rel_from rel) (entities kg) = true
                     /\ mem (rel_to rel) (entities kg) = true)
         (relations kg).

(** The ids that the [kg_add_entity] requests of a run name, in order. *)
Definition added_ids (reqs : list (string * request)) : list string :=
  omap (fun nr => match nr.2 with
                  | kg_add_entity entity_id _ _ => Some entity_id
                  | _ => None
                  end) reqs.

(** A [kg_add_relation] request that was answered with its confirmation
    message. *)
Definition relation_added (req : request) (out : outcome) : bool :=
  match req, out with
  | kg_add_relation from_entity relation to_entity _, Return (Text msg) =>
      String.eqb msg ("Added relation: " +:+ from_entity +:+ " --[" +:+ relation
                        +:+ "]--> " +:+ to_entity)
  | _, _ => false
  end.

Definition relations_added (reqs : list (string * request))
    (outs : list outcome) : nat :=
  length (filter (fun ro => relation_added ro.1.2 ro.2 = true) (zip reqs outs)).

(** The stored ids whose current record has type [t]; the stored relations
    that bear the label [l]. *)
Definition ids_of_type (t : string) (ents : odict entity_data) : list string :=
  filter (fun id => ent_type <$> get id ents = Some t) (keys ents).

Definition relations_labelled (l : string) (rels : list relation_data)
    : list relation_data :=
  filter (fun rel => rel_relation rel = l) rels.

(** What a histogram holds for a category that occurs [n] times: nothing
    when [n] is zero. *)
Definition tally (n : nat) : option Z :=
  match n with O => None | S _ => Some (Z.of_nat n) end.

(** An id is picked up from [rel] when the other end is in the frontier. *)
Definition picked (cl : gset string) (rel : relation_data) (x : string) : Prop :=
  (rel_from rel ∈ cl /\ x = rel_to rel) \/ (rel_to rel ∈ cl /\ x = rel_from rel).

(** The graph after the scenario. *)
Definition scenario_graph : graph := (serve scenario knowledge_graph).1.

(** ** [list_tools]

    The five [Tool] values, with the [properties] and [required] entries of
    each [inputSchema] (every schema has [type] [object]; [kg_stats] has no
    [required] entry). *)

Record schema_field := mk_field {
  field_name : string;
  field_type : string;
  field_description : string;
  field_default : option json;
  field_enum : option (list string)
}.

Record tool := mk_tool {
  tool_name : string;
  tool_description : string;
  tool_properties : list schema_field;
  tool_required : list string
}.

Definition list_tools : list tool :=
  [ mk_tool "kg_add_entity" "Add entity to knowledge graph"
      [ mk_field "entity" "string" "Entity name/ID" None None;
        mk_field "type" "string"
                 "Entity type (person, concept, event, etc.)" None None;
        mk_field "properties" "object" "Additional properties" None None ]
      ["entity"; "type"];
    mk_tool "kg_add_relation" "Add relation between entities in the graph"
      [ mk_field "from_entity" "string" "Source entity" None None;
        mk_field "relation" "string"
                 "Relation type (knows, related_to, causes, etc.)" None None;
        mk_field "to_entity" "string" "Target entity" None None;
        mk_field "properties" "object" "Relation metadata" None None ]
      ["from_entity"; "relation"; "to_entity"];
    mk_tool "kg_query" "Query knowledge graph for entities and relations"
      [ mk_field "query" "string" "Query string (entity name or pattern)"
                 None None;
        mk_field "query_type" "string" "Type of query"
                 (Some (JStr "entity")) (Some ["entity"; "relation"; "path"]);
        mk_field "limit" "number" "Max results" (Some (JNum 10)) None ]
      ["query"];
    mk_tool "kg_get_neighbors"
      "Get neighboring entities (connected by relations)"
      [ mk_field "entity" "string" "Entity to find neighbors for" None None;
        mk_field "depth" "number" "Search depth (hops)" (Some (JNum 1)) None ]
      ["entity"];
    mk_tool "kg_stats" "Get knowledge graph statistics" [] [] ].

(** ** [call_tool] on a tool name and a raw argument bag

    [arguments] is the JSON object of the request.  [arguments[key]] raises
    [KeyError] when the key is missing, [arguments.get(key, default)] does
    not.  The reads happen in the order of the source, before anything is
    stored.  A bag in which a field that is read does not have the JSON type
    its schema declares is not modelled ([OutsideSchema]). *)

Inductive raw_outcome :=
| Served (kg : graph) (out : outcome)
| KeyError (key : string)
| OutsideSchema.

Definition as_string (v : json) : option string :=
  match v with JStr s => Some s | _ => None end.

Definition as_number (v : json) : option Z :=
  match v with JNum n => Some n | _ => None end.

Definition as_object (v : json) : option (odict json) :=
  match v with JObj fields => Some fields | _ => None end.

(** The value of an optional field: [Some None] when the key is missing,
    [None] when the value has another JSON type. *)
Definition optional {A} (as_type : json -> option A) (key : string)
    (arguments : odict json) : option (option A) :=
  match get key arguments with
  | None => Some None
  | Some v => match as_type v with Some a => Some (Some a) | None => None end
  end.

Definition served (r : graph * outcome) : raw_outcome := Served r.1 r.2.

Definition call_tool_raw (now : string) (name : string)
    (arguments : odict json) (kg : graph) : raw_outcome :=
  if String.eqb name "kg_add_entity" then
    match get "entity" arguments with
    | None => KeyError "entity"
    | Some entity_id =>
        match get "type" arguments with
        | None => KeyError "type"
        | Some type =>
            match as_string entity_id, as_string type,
                  optional as_object "properties" arguments with
            | Some entity_id, Some type, Some properties =>
                served (call_tool now (kg_add_entity entity_id type properties) kg)
            | _, _, _ => OutsideSchema
            end
        end
    end
  else if String.eqb name "kg_add_relation" then
    match get "from_entity" arguments with
    | None => KeyError "from_entity"
    | Some from_entity =>
        match get "to_entity" arguments with
        | None => KeyError "to_entity"
        | Some to_entity =>
            match get "relation" arguments with
            | None => KeyError "relation"
            | Some relation =>
                match as_string from_entity, as_string relation,
                      as_string to_entity,
                      optional as_object "properties" arguments with
                | Some from_entity, Some relation, Some to_entity,
                  Some properties =>
                    served (call_tool now
                              (kg_add_relation from_entity relation to_entity
                                               properties) kg)
                | _, _, _, _ => OutsideSchema
                end
            end
        end
    end
  else if String.eqb name "kg_query" then
    match get "query" arguments with
    | None => KeyError "query"
    | Some query =>
        match as_string query, optional as_string "query_type" arguments,
              optional as_number "limit" arguments with
        | Some query, Some query_type, Some limit =>
            served (call_tool now (kg_query query query_type limit) kg)
        | _, _, _ => OutsideSchema
        end
    end
  else if String.eqb name "kg_get_neighbors" then
    match get "entity" arguments with
    | None => KeyError "entity"
    | Some entity =>
        match as_string entity, optional as_number "depth" arguments with
        | Some entity, Some depth =>
            served (call_tool now (kg_get_neighbors entity depth) kg)
        | _, _ => OutsideSchema
        end
    end
  else if String.eqb name "kg_stats" then
    served (call_tool now kg_stats kg)
  else
    served (call_tool now (unknown_tool name) kg).



(** ** Vocabulary for the statements about queries, traversal and counts *)

Definition entity_matches (query : string) (kv : string * entity_data) : bool :=
  contains query (lower kv.1) || contains query (lower (ent_type kv.2)).

Definition entity_result (kv : string * entity_data) : query_result :=
  EntityResult kv.1 (ent_type kv.2) (ent_properties kv.2).

Definition relation_matches (query : string) (rel : relation_data) : bool :=
  contains query (lower (rel_relation rel)).

Definition relation_result (rel : relation_data) : query_result :=
  RelationResult (rel_from rel) (rel_relation rel) (rel_to rel).

(** The [results] of an answer to [kg_query]. *)
Definition results_of (r : graph * outcome) : list query_result :=
  match r.2 with
  | Return (QueryJson _ results) => results
  | _ => []
  end.

(** The ids listed in an answer to [kg_get_neighbors]. *)
Definition neighbor_ids (r : graph * outcome) : list string :=
  match r.2 with
  | Return (NeighborsJson _ _ neighbors) => map nb_id neighbors
  | _ => []
  end.

(** Some stored relation has [a] at one end and [b] at the other. *)
Definition adjacent (rels : list relation_data) (a b : string) : Prop :=
  exists rel, rel ∈ rels
    /\ ((rel_from rel = a /\ rel_to rel = b)
        \/ (rel_to rel = a /\ rel_from rel = b)).

(** A chain of [n] relations, each taken in either direction, leads from
    [a] to [b]. *)
Fixpoint walk (rels : list relation_data) (n : nat) (a b : string) : Prop :=
  match n with
  | O => a = b
  | S n' => exists c, walk rels n' a c /\ adjacent rels c b
  end.

(** The sum of the counts of a histogram. *)
Definition total (h : odict Z) : Z := fold_right Z.add 0 (values h).

(** The requests that can change the graph. *)
Definition is_mutation (req : request) : bool :=
  match req with
  | kg_add_entity _ _ _ | kg_add_relation _ _ _ _ => true
  | _ => false
  end.

(** * Properties *)

(** ** Dictionary lemmas *)

Section DictFacts.
Context {V : Type}.
Implicit Types (d : odict V) (k : string) (v : V).

Lemma get_set_eq k v d : get k (set k v d) = Some v.
Proof.
  induction d as [|[k' v'] d IH]; simpl.
  - by rewrite String.eqb_refl.
  - destruct (String.eqb k k') eqn:E; simpl; rewrite E; auto.
Qed.

Lemma get_set_ne k k' v d : k <> k' -> get k' (set k v d) = get k' d.
Proof.
  intros Hne. induction d as [|[k0 v0] d IH]; simpl.
  - destruct (String.eqb_spec k' k); congruence.
  - destruct (String.eqb_spec k k0) as [->|]; simpl.
    + destruct (String.eqb_spec k' k0); congruence.
    + by rewrite IH.
Qed.

Lemma mem_keys k d : mem k d = true <-> k ∈ keys d.
Proof.
  unfold mem, keys. induction d as [|[k' v'] d IH]; simpl.
  - split; [discriminate | by intros ?%elem_of_nil].
  - rewrite elem_of_cons. destruct (String.eqb_spec k k'); [tauto|].
    rewrite IH. tauto.
Qed.

Lemma mem_false_keys k d : mem k d = false <-> k ∉ keys d.
Proof. rewrite <- mem_keys. destruct (mem k d); split; congruence. Qed.

Lemma mem_set k k' v d : mem k' (set k v d) = String.eqb k' k || mem k' d.
Proof.
  unfold mem. destruct (String.eqb_spec k' k) as [->|Hne].
  - by rewrite get_set_eq.
  - by rewrite get_set_ne.
Qed.

Lemma keys_set k v d :
  keys (set k v d) = if mem k d then keys d else keys d ++ [k].
Proof.
  unfold mem, keys. induction d as [|[k' v'] d IH]; simpl; [done|].
  destruct (String.eqb_spec k k') as [->|]; simpl; [done|].
  rewrite IH. by destruct (get k d).
Qed.

Lemma keys_set_NoDup k v d : NoDup (keys d) -> NoDup (keys (set k v d)).
Proof.
  intros Hnd. rewrite keys_set. destruct (mem k d) eqn:E; [done|].
  apply NoDup_app. split_and!; [done| |apply NoDup_singleton].
  intros x Hx ->%list_elem_of_singleton. by apply mem_false_keys in E.
Qed.
End DictFacts.

(** ** Adding relations *)

Lemma add_relation_rejected now kg f r t p :
  mem f (entities kg) = false \/ mem t (entities kg) = false ->
  (call_tool now (kg_add_relation f r t p) kg).1 = kg.
Proof.
  intros H. simpl.
  destruct (mem f (entities kg)); simpl; [|done].
  destruct (mem t (entities kg)); simpl; [|done].
  by destruct H.
Qed.

(** C1. When [from_entity] or [to_entity] is not a key of the entity map,
    [kg_add_relation] answers with the error string that names the missing
    endpoint (the first one that is missing) and leaves the whole state as it
    was: no relation is appended and the relation count is the same. *)
Theorem add_relation_missing_endpoint now kg f r t p :
  mem f (entities kg) = false \/ mem t (entities kg) = false ->
  exists missing,
    (missing = f \/ missing = t)
    /\ mem missing (entities kg) = false
    /\ call_tool now (kg_add_relation f r t p) kg
       = (kg, Return (Text ("Error: Entity '" +:+ missing
                              +:+ "' not found. Add it first with kg_add_entity.")))
    /\ is_error (call_tool now (kg_add_relation f r t p) kg).2 = true
    /\ relations (call_tool now (kg_add_relation f r t p) kg).1 = relations kg
    /\ length (relations (call_tool now (kg_add_relation f r t p) kg).1)
       = length (relations kg).
Proof.
  intros H. pose proof (add_relation_rejected now kg f r t p H) as Hst.
  rewrite Hst. simpl.
  destruct (mem f (entities kg)) eqn:Ef; simpl.
  - destruct (mem t (entities kg)) eqn:Et; simpl.
    + destruct H; discriminate.
    + exists t. by split_and!; auto.
  - exists f. by split_and!; auto.
Qed.

Lemma add_relation_missing_endpoint_witness :
  exists missing,
    (missing = "A" \/ missing = "Z")
    /\ mem missing (entities scenario_graph) = false
    /\ call_tool "t6" (kg_add_relation "A" "knows" "Z" None) scenario_graph
       = (scenario_graph,
          Return (Text ("Error: Entity '" +:+ missing
                          +:+ "' not found. Add it first with kg_add_entity.")))
    /\ is_error (call_tool "t6" (kg_add_relation "A" "knows" "Z" None)
                           scenario_graph).2 = true
    /\ relations (call_tool "t6" (kg_add_relation "A" "knows" "Z" None)
                            scenario_graph).1 = relations scenario_graph
    /\ length (relations (call_tool "t6" (kg_add_relation "A" "knows" "Z" None)
                                    scenario_graph).1)
       = length (relations scenario_graph).
Proof.
  apply (add_relation_missing_endpoint "t6" scenario_graph "A" "knows" "Z" None).
  right. reflexivity.
Defined.

(** C7. With both endpoints present, [kg_add_relation] confirms, keeps the
    entity map and appends exactly one record, so the relation count grows
    by one.  The same request once more appends a second record after the
    first: the log then ends with two entries for the same
    (from, label, to), at two positions. *)
Theorem add_relation_appends now now' kg a r b p :
  mem a (entities kg) = true ->
  mem b (entities kg) = true ->
  let req := kg_add_relation a r b p in
  let rec1 := mk_relation a r b (default [] p) now in
  let rec2 := mk_relation a r b (default [] p) now' in
  let kg1 := (call_tool now req kg).1 in
  let kg2 := (call_tool now' req kg1).1 in
  call_tool now req kg
  = (mk_graph (entities kg) (relations kg ++ [rec1]),
     Return (Text ("Added relation: " +:+ a +:+ " --[" +:+ r +:+ "]--> " +:+ b)))
  /\ length (relations kg1) = S (length (relations kg))
  /\ relations_count_of kg1 = relations_count_of kg + 1
  /\ is_error (call_tool now' req kg1).2 = false
  /\ relations kg2 = relations kg ++ [rec1; rec2]
  /\ relations kg2 !! length (relations kg) = Some rec1
  /\ relations kg2 !! S (length (relations kg)) = Some rec2
  /\ length (relations kg2) = S (S (length (relations kg))).
Proof.
  intros Ha Hb req rec1 rec2 kg1 kg2.
  assert (H1 : call_tool now req kg
               = (mk_graph (entities kg) (relations kg ++ [rec1]),
                  Return (Text ("Added relation: " +:+ a +:+ " --[" +:+ r
                                  +:+ "]--> " +:+ b)))).
  { subst req. unfold call_tool. by rewrite Ha, Hb. }
  assert (H2 : call_tool now' req kg1
               = (mk_graph (entities kg) (relations kg ++ [rec1; rec2]),
                  Return (Text ("Added relation: " +:+ a +:+ " --[" +:+ r
                                  +:+ "]--> " +:+ b)))).
  { subst kg1 req. rewrite H1. unfold call_tool. simpl entities.
    rewrite Ha, Hb. simpl. by rewrite <- app_assoc. }
  subst kg2. rewrite H2. subst kg1. rewrite H1. simpl.
  unfold relations_count_of. simpl.
  split_and!; try done.
  - rewrite length_app. simpl. lia.
  - rewrite length_app. simpl. lia.
  - rewrite lookup_app_r by lia. by rewrite Nat.sub_diag.
  - rewrite lookup_app_r by lia.
    by replace (S (length (relations kg)) - length (relations kg))%nat with 1%nat by lia.
  - rewrite length_app. simpl. lia.
Qed.

Lemma add_relation_appends_witness :
  let req := kg_add_relation "A" "knows" "B" None in
  let rec1 := mk_relation "A" "knows" "B" [] "t6" in
  let rec2 := mk_relation "A" "knows" "B" [] "t7" in
  let kg1 := (call_tool "t6" req scenario_graph).1 in
  let kg2 := (call_tool "t7" req kg1).1 in
  call_tool "t6" req scenario_graph
  = (mk_graph (entities scenario_graph) (relations scenario_graph ++ [rec1]),
     Return (Text "Added relation: A --[knows]--> B"))
  /\ length (relations kg1) = S (length (relations scenario_graph))
  /\ relations_count_of kg1 = relations_count_of scenario_graph + 1
  /\ is_error (call_tool "t7" req kg1).2 = false
  /\ relations kg2 = relations scenario_graph ++ [rec1; rec2]
  /\ relations kg2 !! length (relations scenario_graph) = Some rec1
  /\ relations kg2 !! S (length (relations scenario_graph)) = Some rec2
  /\ length (relations kg2) = S (S (length (relations scenario_graph))).
Proof.
  apply (add_relation_appends "t6" "t7" scenario_graph "A" "knows" "B" None);
    reflexivity.
Defined.

(** ** Adding entities *)

(** C2. [kg_add_entity] never fails; afterwards the lookup of the id gives
    the record made of exactly the given type and property bag (the empty
    bag when none was given), whatever was stored under that id before: a
    key that the new bag lacks is absent from the stored bag.  Other ids
    keep their records, the stored ids are the old ones and at most the new
    id in addition, and the relation log is untouched. *)
Theorem add_entity_upsert now kg e t p :
  let res := call_tool now (kg_add_entity e t p) kg in
  res.2 = Return (Text ("Added entity '" +:+ e +:+ "' of type '" +:+ t +:+ "'"))
  /\ is_error res.2 = false
  /\ get e (entities res.1) = Some (mk_entity t (default [] p) now)
  /\ (forall d k, get e (entities res.1) = Some d ->
                  get k (default [] p) = None ->
                  get k (ent_properties d) = None)
  /\ (forall e', e' <> e -> get e' (entities res.1) = get e' (entities kg))
  /\ keys (entities res.1)
     = (if mem e (entities kg) then keys (entities kg)
        else keys (entities kg) ++ [e])
  /\ (forall e', e' ∈ keys (entities res.1) <-> e' = e \/ e' ∈ keys (entities kg))
  /\ relations res.1 = relations kg.
Proof.
  simpl. split_and!; try done.
  - apply get_set_eq.
  - intros d k. rewrite get_set_eq. by intros [= <-].
  - intros e' Hne. by apply get_set_ne.
  - apply keys_set.
  - intros e'. rewrite <- !mem_keys, mem_set.
    rewrite orb_true_iff, String.eqb_eq. tauto.
Qed.

(** ** Read-only branches *)

(** C10. The [kg_query], [kg_get_neighbors] and [kg_stats] branches hand
    back the state they were given, entity map and relation log alike, for
    every argument bag; a request that changes the state is a
    [kg_add_entity] or a [kg_add_relation]. *)
Theorem read_only_branches now kg :
  (forall query query_type limit,
      (call_tool now (kg_query query query_type limit) kg).1 = kg)
  /\ (forall entity depth,
      (call_tool now (kg_get_neighbors entity depth) kg).1 = kg)
  /\ (call_tool now kg_stats kg).1 = kg
  /\ (forall req, (call_tool now req kg).1 <> kg ->
        (exists e t p, req = kg_add_entity e t p)
        \/ (exists f r t p, req = kg_add_relation f r t p)).
Proof.
  split_and!.
  - done.
  - intros entity depth. simpl. by destruct (mem entity (entities kg)).
  - done.
  - intros [e t p|f r t p|q qt l|e d| |n] Hne; simpl in Hne; eauto 10;
      try done.
    by destruct (mem e (entities kg)).
Qed.

(** ** Runs of the server *)

Lemma serve_cons now req reqs kg :
  serve ((now, req) :: reqs) kg
  = ((serve reqs (call_tool now req kg).1).1,
     (call_tool now req kg).2 :: (serve reqs (call_tool now req kg).1).2).
Proof.
  simpl. destruct (call_tool now req kg) as [kg' out]. simpl.
  by destruct (serve reqs kg') as [kg'' outs].
Qed.

(** What one call does to the two collections. *)
Lemma call_tool_keys now req kg x :
  x ∈ keys (entities (call_tool now req kg).1)
  <-> x ∈ keys (entities kg) \/ x ∈ added_ids [(now, req)].
Proof.
  destruct req as [e t p|f r t p|q qt l|e d| |n]; simpl;
    rewrite ?elem_of_nil; try tauto.
  - rewrite <- !mem_keys, mem_set, orb_true_iff, String.eqb_eq.
    rewrite list_elem_of_singleton. tauto.
  - destruct (mem f (entities kg)), (mem t (entities kg)); simpl; tauto.
  - destruct (mem e (entities kg)); simpl; tauto.
Qed.

Lemma call_tool_keys_NoDup now req kg :
  NoDup (keys (entities kg)) -> NoDup (keys (entities (call_tool now req kg).1)).
Proof.
  intros Hnd. destruct req as [e t p|f r t p|q qt l|e d| |n]; simpl; try done.
  - by apply keys_set_NoDup.
  - by destruct (mem f (entities kg)), (mem t (entities kg)).
  - by destruct (mem e (entities kg)).
Qed.

Lemma call_tool_relations now req kg :
  length (relations (call_tool now req kg).1)
  = (length (relations kg)
     + if relation_added req (call_tool now req kg).2 then 1 else 0)%nat.
Proof.
  destruct req as [e t p|f r t p|q qt l|e d| |n]; simpl; try lia.
  - destruct (mem f (entities kg)); simpl; [|lia].
    destruct (mem t (entities kg)); simpl; [|lia].
    rewrite String.eqb_refl, length_app. simpl. lia.
  - destruct (mem e (entities kg)); simpl; lia.
Qed.

Lemma call_tool_resolves now req kg :
  endpoints_resolve kg -> endpoints_resolve (call_tool now req kg).1.
Proof.
  unfold endpoints_resolve. intros Hres.
  destruct req as [e t p|f r t p|q qt l|e d| |n]; simpl; try done.
  - eapply Forall_impl; [exact Hres|]. simpl. intros rel [Hf Ht].
    rewrite !mem_set, Hf, Ht. by rewrite !orb_true_r.
  - destruct (mem f (entities kg)) eqn:Ef; simpl; [|done].
    destruct (mem t (entities kg)) eqn:Et; simpl; [|done].
    apply Forall_app. split; [done|]. by repeat constructor.
  - by destruct (mem e (entities kg)).
Qed.

Lemma serve_resolves reqs kg :
  endpoints_resolve kg -> endpoints_resolve (serve reqs kg).1.
Proof.
  revert kg. induction reqs as [|[now req] reqs IH]; intros kg Hres; [done|].
  rewrite serve_cons. simpl. by apply IH, call_tool_resolves.
Qed.

Lemma serve_keys reqs kg x :
  x ∈ keys (entities (serve reqs kg).1)
  <-> x ∈ keys (entities kg) \/ x ∈ added_ids reqs.
Proof.
  revert kg. induction reqs as [|[now req] reqs IH]; intros kg.
  - simpl. rewrite elem_of_nil. tauto.
  - rewrite serve_cons. simpl fst. rewrite IH, call_tool_keys.
    change ((now, req) :: reqs) with ([(now, req)] ++ reqs).
    unfold added_ids. rewrite omap_app, elem_of_app. tauto.
Qed.

Lemma serve_keys_NoDup reqs kg :
  NoDup (keys (entities kg)) -> NoDup (keys (entities (serve reqs kg).1)).
Proof.
  revert kg. induction reqs as [|[now req] reqs IH]; intros kg Hnd; [done|].
  rewrite serve_cons. simpl. by apply IH, call_tool_keys_NoDup.
Qed.

Lemma serve_relations reqs kg :
  length (relations (serve reqs kg).1)
  = (length (relations kg) + relations_added reqs (serve reqs kg).2)%nat.
Proof.
  revert kg. induction reqs as [|[now req] reqs IH]; intros kg.
  - simpl. unfold relations_added. simpl. lia.
  - rewrite serve_cons. simpl fst. simpl snd.
    rewrite IH, call_tool_relations. unfold relations_added. simpl zip.
    rewrite filter_cons. simpl.
    destruct (relation_added req (call_tool now req kg).2);
      case_decide; try done; simpl; lia.
Qed.

(** ** Traversal *)

Lemma scan_relation_spec cl acc rel x :
  (x ∈ (scan_relation cl acc rel).1 <-> x ∈ acc.1 \/ picked cl rel x)
  /\ (x ∈ (scan_relation cl acc rel).2 <-> x ∈ acc.2 \/ picked cl rel x).
Proof.
  unfold scan_relation, picked.
  destruct (bool_decide_reflect (rel_from rel ∈ cl));
    destruct (bool_decide_reflect (rel_to rel ∈ cl)); simpl;
    rewrite ?elem_of_union, ?elem_of_singleton; tauto.
Qed.

Lemma scan_relations_spec cl rels acc x :
  (x ∈ (fold_left (scan_relation cl) rels acc).1
   <-> x ∈ acc.1 \/ exists rel, rel ∈ rels /\ picked cl rel x)
  /\ (x ∈ (fold_left (scan_relation cl) rels acc).2
      <-> x ∈ acc.2 \/ exists rel, rel ∈ rels /\ picked cl rel x).
Proof.
  revert acc. induction rels as [|rel rels IH]; intros acc; simpl.
  - split; (split; [auto | intros [?|(rel & Hin & _)]; [done|]]);
      by apply elem_of_nil in Hin.
  - destruct (IH (scan_relation cl acc rel)) as [IH1 IH2].
    destruct (scan_relation_spec cl acc rel x) as [S1 S2].
    rewrite IH1, IH2, S1, S2. clear.
    split; (split;
      [ intros [[?|?]|(r & Hr & ?)];
        [by left | right; exists rel; split; [left|done]
        | right; exists r; split; [by right|done] ]
      | intros [?|(r & Hr & ?)]; [by left; left|];
        apply elem_of_cons in Hr as [->|Hr];
        [by left; right | right; by exists r] ]).
Qed.

Lemma bfs_round_grows rels st x : x ∈ st.1 -> x ∈ (bfs_round rels st).1.
Proof.
  intros Hx. unfold bfs_round.
  apply (scan_relations_spec st.2 rels (st.1, ∅) x). by left.
Qed.

Lemma bfs_rounds_succ n rels st :
  bfs_rounds (S n) rels st = bfs_round rels (bfs_rounds n rels st).
Proof.
  revert st. induction n as [|n IH]; intros st; [done|].
  change (bfs_rounds (S (S n)) rels st)
    with (bfs_rounds (S n) rels (bfs_round rels st)).
  by rewrite IH.
Qed.

Lemma bfs_rounds_grow n rels st x :
  x ∈ (bfs_rounds n rels st).1 -> x ∈ (bfs_rounds (S n) rels st).1.
Proof. rewrite bfs_rounds_succ. apply bfs_round_grows. Qed.

(** Whatever the traversal collects is the end of a stored relation. *)
Lemma bfs_rounds_endpoints n rels st x :
  x ∈ (bfs_rounds n rels st).1 ->
  x ∈ st.1 \/ exists rel, rel ∈ rels /\ (x = rel_from rel \/ x = rel_to rel).
Proof.
  revert st. induction n as [|n IH]; intros st; simpl; [by left|].
  intros [Hx|Hx]%IH; [|by right].
  unfold bfs_round in Hx.
  apply (scan_relations_spec st.2 rels (st.1, ∅) x) in Hx
    as [Hx|(rel & Hin & Hp)]; [by left|].
  right. exists rel. split; [done|]. destruct Hp as [[_ ->]|[_ ->]]; auto.
Qed.

Lemma linked_spec kg e d :
  linked kg e d = true
  <-> exists rel, rel ∈ relations kg /\ picked {[e]} rel d.
Proof.
  unfold linked, picked. rewrite existsb_exists.
  split; intros (rel & Hin & H); exists rel.
  - apply list_elem_of_In in Hin. split; [done|].
    rewrite orb_true_iff, !andb_true_iff, !String.eqb_eq in H.
    rewrite !elem_of_singleton. destruct H as [[-> ->]|[-> ->]]; auto.
  - split; [by apply list_elem_of_In|].
    rewrite orb_true_iff, !andb_true_iff, !String.eqb_eq.
    rewrite !elem_of_singleton in H. destruct H as [[-> ->]|[-> ->]]; auto.
Qed.

Lemma elem_of_neighbor_data ents ids n :
  n ∈ neighbor_data ents ids
  <-> nb_id n ∈ ids
      /\ exists d, get (nb_id n) ents = Some d /\ nb_type n = ent_type d.
Proof.
  unfold neighbor_data. rewrite list_elem_of_omap. split.
  - intros (id & Hin & H). destruct (get id ents) as [d|] eqn:E; [|done].
    injection H as <-. simpl. eauto.
  - intros (Hin & d & Hd & Ht). exists (nb_id n). split; [done|].
    rewrite Hd. destruct n; simpl in *. by rewrite Ht.
Qed.

Lemma neighbor_data_ids ents ids :
  map nb_id (neighbor_data ents ids)
  = filter (fun id => mem id ents = true) ids.
Proof.
  unfold neighbor_data. induction ids as [|id ids IH]; [done|].
  rewrite filter_cons. rewrite <- IH. clear IH.
  case_decide as Hm; unfold mem in Hm; simpl; by destruct (get id ents).
Qed.

Lemma neighbor_data_mono ents ids ids' :
  ids ⊆ ids' -> neighbor_data ents ids ⊆ neighbor_data ents ids'.
Proof.
  intros Hsub n. rewrite !elem_of_neighbor_data. intros [Hin H]. auto.
Qed.

Lemma neighbors_answer now kg e depth :
  mem e (entities kg) = true ->
  call_tool now (kg_get_neighbors e (Some depth)) kg
  = (kg, Return (NeighborsJson e depth
                   (neighbor_data (entities kg)
                      (elements ((bfs_rounds (Z.to_nat depth) (relations kg)
                                    (∅, {[e]})).1 ∖ {[e]}))))).
Proof. intros He. unfold call_tool. simpl. by rewrite He. Qed.

Lemma neighbors_depth_zero now kg e :
  mem e (entities kg) = true ->
  call_tool now (kg_get_neighbors e (Some 0)) kg
  = (kg, Return (NeighborsJson e 0 [])).
Proof.
  intros He. rewrite neighbors_answer by done. simpl.
  by rewrite empty_difference_L, elements_empty.
Qed.

(** Depth 1 on any state whose relations resolve. *)
Lemma neighbors_depth_one_resolved now kg e :
  mem e (entities kg) = true ->
  endpoints_resolve kg ->
  exists ns,
    call_tool now (kg_get_neighbors e (Some 1)) kg
    = (kg, Return (NeighborsJson e 1 ns))
    /\ NoDup (map nb_id ns)
    /\ (forall d, d ∈ map nb_id ns <-> d <> e /\ linked kg e d = true)
    /\ (forall n, n ∈ ns ->
          exists d, get (nb_id n) (entities kg) = Some d
                    /\ nb_type n = ent_type d).
Proof.
  intros He Hres. eexists. split; [by apply neighbors_answer|].
  change (Z.to_nat 1) with 1%nat. simpl bfs_rounds. split_and!.
  - rewrite neighbor_data_ids. apply NoDup_filter, NoDup_elements.
  - intros d. rewrite neighbor_data_ids, list_elem_of_filter, elem_of_elements.
    rewrite elem_of_difference, elem_of_singleton, linked_spec.
    unfold bfs_round. simpl.
    destruct (scan_relations_spec {[e]} (relations kg) (∅, ∅) d) as [-> _].
    simpl. split.
    + intros (_ & [Hd|Hd] & Hne); [by apply elem_of_empty in Hd | done].
    + intros (Hne & rel & Hin & Hp). split_and!; [|by right; exists rel|done].
      unfold endpoints_resolve in Hres. rewrite Forall_forall in Hres.
      destruct (Hres rel Hin) as [Hf Ht].
      destruct Hp as [[_ ->]|[_ ->]]; done.
  - intros n Hn. by apply elem_of_neighbor_data in Hn as [_ Hn].
Qed.

(** C3. In every state of the server (any run from the empty graph),
    [kg_get_neighbors] with depth 1 on an existing entity [e] lists,
    without repeating an id, exactly the ids other than [e] that some
    stored relation joins to [e] in either direction, each with the type
    stored for it. *)
Theorem neighbors_depth_one now reqs e :
  let kg := (serve reqs knowledge_graph).1 in
  mem e (entities kg) = true ->
  exists ns,
    call_tool now (kg_get_neighbors e (Some 1)) kg
    = (kg, Return (NeighborsJson e 1 ns))
    /\ NoDup (map nb_id ns)
    /\ (forall d, d ∈ map nb_id ns <-> d <> e /\ linked kg e d = true)
    /\ (forall n, n ∈ ns ->
          exists d, get (nb_id n) (entities kg) = Some d
                    /\ nb_type n = ent_type d).
Proof.
  intros kg He. apply neighbors_depth_one_resolved; [done|].
  apply serve_resolves. constructor.
Qed.

Lemma neighbors_depth_one_witness :
  exists ns,
    call_tool "t6" (kg_get_neighbors "B" (Some 1)) scenario_graph
    = (scenario_graph, Return (NeighborsJson "B" 1 ns))
    /\ NoDup (map nb_id ns)
    /\ (forall d, d ∈ map nb_id ns
                  <-> d <> "B" /\ linked scenario_graph "B" d = true)
    /\ (forall n, n ∈ ns ->
          exists d, get (nb_id n) (entities scenario_graph) = Some d
                    /\ nb_type n = ent_type d).
Proof. apply (neighbors_depth_one "t6" scenario "B"). reflexivity. Defined.

(** C4, as the code has it.  A negative depth is not rejected:
    [range(depth)] is empty, so an existing start entity gets a normal
    answer with an empty neighbor list (and the depth echoed), and a missing
    one gets the not-found message; the state is unchanged either way. *)
Theorem neighbors_negative_depth now kg e depth :
  depth < 0 ->
  call_tool now (kg_get_neighbors e (Some depth)) kg
  = (kg, Return (if mem e (entities kg) then NeighborsJson e depth []
                 else Text ("Error: Entity '" +:+ e +:+ "' not found"))).
Proof.
  intros Hneg. destruct (mem e (entities kg)) eqn:He.
  - rewrite neighbors_answer by done.
    replace (Z.to_nat depth) with 0%nat by lia. simpl.
    by rewrite empty_difference_L, elements_empty.
  - unfold call_tool. simpl. by rewrite He.
Qed.

Lemma neighbors_negative_depth_witness :
  call_tool "t6" (kg_get_neighbors "A" (Some (-1))) scenario_graph
  = (scenario_graph,
     Return (if mem "A" (entities scenario_graph) then NeighborsJson "A" (-1) []
             else Text ("Error: Entity '" +:+ "A" +:+ "' not found"))).
Proof.
  apply (neighbors_negative_depth "t6" scenario_graph "A" (-1)). lia.
Defined.

(** C4 as claimed fails: depth -1 on the existing entity A is answered with
    an empty neighbor list, not with an error. *)
Lemma neighbors_negative_depth_no_error :
  (-1 < 0)
  /\ mem "A" (entities scenario_graph) = true
  /\ call_tool "t6" (kg_get_neighbors "A" (Some (-1))) scenario_graph
     = (scenario_graph, Return (NeighborsJson "A" (-1) []))
  /\ is_error (call_tool "t6" (kg_get_neighbors "A" (Some (-1)))
                         scenario_graph).2 <> true.
Proof. split_and!; [lia|reflexivity|reflexivity|discriminate]. Qed.

(** C6. For an existing start entity and a depth [k] of at least 1, every
    neighbor listed at depth [k - 1] is listed at depth [k] as well (so the
    ids of the former are among the ids of the latter), and depth 0 lists
    nothing. *)
Theorem neighbors_monotone now kg e k :
  mem e (entities kg) = true ->
  1 <= k ->
  exists lo hi,
    call_tool now (kg_get_neighbors e (Some (k - 1))) kg
    = (kg, Return (NeighborsJson e (k - 1) lo))
    /\ call_tool now (kg_get_neighbors e (Some k)) kg
       = (kg, Return (NeighborsJson e k hi))
    /\ lo ⊆ hi
    /\ map nb_id lo ⊆ map nb_id hi
    /\ call_tool now (kg_get_neighbors e (Some 0)) kg
       = (kg, Return (NeighborsJson e 0 [])).
Proof.
  intros He Hk. do 2 eexists.
  split; [by apply neighbors_answer|].
  split; [by apply neighbors_answer|].
  replace (Z.to_nat k) with (S (Z.to_nat (k - 1))) by lia.
  assert (Hsub : elements ((bfs_rounds (Z.to_nat (k - 1)) (relations kg)
                              (∅, {[e]})).1 ∖ {[e]})
                 ⊆ elements ((bfs_rounds (S (Z.to_nat (k - 1))) (relations kg)
                                (∅, {[e]})).1 ∖ {[e]})).
  { intros x. rewrite !elem_of_elements, !elem_of_difference.
    intros [Hx Hne]. split; [by apply bfs_rounds_grow|done]. }
  split_and!.
  - by apply neighbor_data_mono.
  - rewrite !neighbor_data_ids. intros x.
    rewrite !list_elem_of_filter. intros [? ?]. auto.
  - by apply neighbors_depth_zero.
Qed.

Lemma neighbors_monotone_witness :
  exists lo hi,
    call_tool "t6" (kg_get_neighbors "A" (Some (2 - 1))) scenario_graph
    = (scenario_graph, Return (NeighborsJson "A" (2 - 1) lo))
    /\ call_tool "t6" (kg_get_neighbors "A" (Some 2)) scenario_graph
       = (scenario_graph, Return (NeighborsJson "A" 2 hi))
    /\ lo ⊆ hi
    /\ map nb_id lo ⊆ map nb_id hi
    /\ call_tool "t6" (kg_get_neighbors "A" (Some 0)) scenario_graph
       = (scenario_graph, Return (NeighborsJson "A" 0 [])).
Proof.
  apply (neighbors_monotone "t6" scenario_graph "A" 2); [reflexivity|lia].
Defined.

(** ** Histograms *)

Section Histogram.
Context {A : Type} (f : A -> string).

(** After counting [xs] into [h], a category that [xs] never shows keeps
    its entry; one that occurs [n > 0] times holds its old count plus
    [n]. *)
Lemma count_in_fold (xs : list A) (h : odict Z) (t : string) :
  get t (fold_left (fun h x => count_in h (f x)) xs h)
  = match length (filter (fun x => f x = t) xs) with
    | O => get t h
    | S n => Some (default 0 (get t h) + Z.of_nat (S n))
    end.
Proof.
  revert h. induction xs as [|x xs IH]; intros h; [done|].
  simpl fold_left. rewrite IH, filter_cons. unfold count_in.
  case_decide as Hx.
  - subst t. rewrite get_set_eq. simpl.
    destruct (length (filter _ xs)); f_equal; lia.
  - by rewrite get_set_ne.
Qed.

Lemma count_in_fold_empty (xs : list A) (t : string) :
  get t (fold_left (fun h x => count_in h (f x)) xs [])
  = tally (length (filter (fun x => f x = t) xs)).
Proof.
  rewrite count_in_fold. simpl.
  destruct (length (filter _ xs)); [done|].
  unfold tally. f_equal.
Qed.
End Histogram.

(** With distinct keys, filtering the keys by their record and filtering
    the records pick the same entries. *)
Lemma get_of_NoDup {V} (d : odict V) k v :
  NoDup (keys d) -> (k, v) ∈ d -> get k d = Some v.
Proof.
  induction d as [|[k' v'] d IH]; simpl; intros Hnd Hin.
  - by apply elem_of_nil in Hin.
  - apply NoDup_cons in Hnd as [Hk' Hnd].
    apply elem_of_cons in Hin as [[= -> ->]|Hin].
    + by rewrite String.eqb_refl.
    + destruct (String.eqb_spec k k') as [->|]; [|by apply IH].
      destruct Hk'. unfold keys. apply list_elem_of_fmap. by exists (k', v).
Qed.

Lemma ids_of_type_length_part t (ents part : odict entity_data) :
  (forall k v, (k, v) ∈ part -> get k ents = Some v) ->
  length (filter (fun id => ent_type <$> get id ents = Some t) (keys part))
  = length (filter (fun d => ent_type d = t) (values part)).
Proof.
  induction part as [|[k v] part IH]; intros Hall; [done|].
  simpl. rewrite !filter_cons. simpl.
  rewrite (Hall k v) by left. simpl.
  specialize (IH (fun k' v' H => Hall k' v' (list_elem_of_further _ _ _ H))).
  repeat case_decide; simpl; congruence.
Qed.

Lemma ids_of_type_length t (ents : odict entity_data) :
  NoDup (keys ents) ->
  length (ids_of_type t ents)
  = length (filter (fun d => ent_type d = t) (values ents)).
Proof.
  intros Hnd. apply ids_of_type_length_part.
  intros k v. by apply get_of_NoDup.
Qed.

(** ** Statistics *)

(** C8. After any run from the empty graph, [kg_stats] answers with the
    four fields of [stats]: [entities_count] is the number of distinct ids
    that the run's [kg_add_entity] requests named, [relations_count] is the
    number of [kg_add_relation] requests that were confirmed,
    [entity_types] holds for each type the number of stored ids (each
    stored once) whose current record has that type, and [relation_types]
    holds for each label the number of stored relations that bear it; a
    category that does not occur has no entry. *)
Theorem stats_counts now reqs :
  let run := serve reqs knowledge_graph in
  exists s,
    call_tool now kg_stats run.1 = (run.1, Return (StatsJson s))
    /\ entities_count s = Z.of_nat (length (remove_dups (added_ids reqs)))
    /\ relations_count s = Z.of_nat (relations_added reqs run.2)
    /\ NoDup (keys (entities run.1))
    /\ (forall t, get t (entity_types s)
                  = tally (length (ids_of_type t (entities run.1))))
    /\ (forall l, get l (relation_types s)
                  = tally (length (relations_labelled l (relations run.1)))).
Proof.
  intros run. exists (stats_of run.1).
  assert (Hnd : NoDup (keys (entities run.1)))
    by (apply serve_keys_NoDup; constructor).
  split_and!; try done.
  - simpl. unfold len. f_equal.
    transitivity (length (keys (entities run.1)));
      [unfold keys; by rewrite length_map|].
    apply Permutation_length, NoDup_Permutation;
      [done | apply NoDup_remove_dups |].
    intros x. unfold run. rewrite serve_keys, elem_of_remove_dups. simpl.
    rewrite elem_of_nil. tauto.
  - simpl. f_equal. unfold run. by rewrite serve_relations.
  - intros t. simpl. unfold entity_type_counts.
    rewrite (count_in_fold_empty ent_type). by rewrite ids_of_type_length.
  - intros l. simpl. unfold relation_type_counts.
    by rewrite (count_in_fold_empty rel_relation).
Qed.

(** ** The insertion invariant *)

Lemma filter_keeps_all {A} (P : A -> Prop) `{forall x, Decision (P x)}
    (l : list A) :
  (forall x, x ∈ l -> P x) -> filter P l = l.
Proof.
  induction l as [|x l IH]; intros Hall; [done|].
  rewrite filter_cons, decide_True by (apply Hall; left).
  f_equal. apply IH. intros y Hy. apply Hall. by right.
Qed.

(** C9. After any run from the empty graph, both ends of every stored
    relation are keys of the entity map; hence every id that a traversal
    collects resolves, and building [neighbor_data] drops none of them. *)
Theorem relations_always_resolve reqs :
  let kg := (serve reqs knowledge_graph).1 in
  endpoints_resolve kg
  /\ (forall rel, rel ∈ relations kg ->
        is_Some (get (rel_from rel) (entities kg))
        /\ is_Some (get (rel_to rel) (entities kg)))
  /\ (forall e n,
        let visited :=
          elements ((bfs_rounds n (relations kg) (∅, {[e]})).1 ∖ {[e]}) in
        (forall x, x ∈ visited -> mem x (entities kg) = true)
        /\ map nb_id (neighbor_data (entities kg) visited) = visited).
Proof.
  intros kg.
  assert (Hres : endpoints_resolve kg) by (apply serve_resolves; constructor).
  assert (Hvis : forall e n x,
             x ∈ elements ((bfs_rounds n (relations kg) (∅, {[e]})).1 ∖ {[e]})
             -> mem x (entities kg) = true).
  { intros e n x. rewrite elem_of_elements, elem_of_difference.
    intros [[Hx|(rel & Hin & Hx)]%bfs_rounds_endpoints _].
    - by apply elem_of_empty in Hx.
    - unfold endpoints_resolve in Hres. rewrite Forall_forall in Hres.
      destruct (Hres rel Hin) as [Hf Ht]. by destruct Hx as [->| ->]. }
  split_and!; [done| |].
  - intros rel Hin. unfold endpoints_resolve in Hres.
    rewrite Forall_forall in Hres. destruct (Hres rel Hin) as [Hf Ht].
    unfold mem in Hf, Ht.
    destruct (get (rel_from rel) (entities kg)),
             (get (rel_to rel) (entities kg)); done.
  - intros e n visited. split; [apply Hvis|].
    rewrite neighbor_data_ids. by apply filter_keeps_all, Hvis.
Qed.

(** ** Queries and their limit *)

(** The limit is tested after a match has been appended, so a limit of
    zero or less stops the entity scan at the first match and returns it. *)
Lemma query_entities_nonpositive query limit
    (items : list (string * entity_data)) :
  limit <= 0 ->
  query_entities query limit items []
  = match filter (fun kv => contains query (lower kv.1)
                            || contains query (lower (ent_type kv.2)) = true)
                 items with
    | [] => []
    | (id, d) :: _ => [EntityResult id (ent_type d) (ent_properties d)]
    end.
Proof.
  intros Hlim. induction items as [|[id d] items IH]; [done|].
  rewrite filter_cons. cbn [query_entities].
  case_decide as Hm; simpl in Hm.
  - rewrite Hm. replace (Z.of_nat _ >=? limit) with true; [done|].
    symmetry. rewrite Z.geb_leb. apply Z.leb_le. simpl. lia.
  - apply not_true_is_false in Hm. rewrite Hm. apply IH.
Qed.

(** C5, at the failing input: on the scenario graph a query with limit 0
    (entities) or -3 (relations) answers with one match instead of none. *)
Theorem query_nonpositive_limit_returns_match :
  call_tool "t6" (kg_query "" (Some "entity") (Some 0)) scenario_graph
  = (scenario_graph, Return (QueryJson "" [EntityResult "A" "person" []]))
  /\ call_tool "t6" (kg_query "KNOW" (Some "relation") (Some (-3))) scenario_graph
     = (scenario_graph, Return (QueryJson "KNOW" [RelationResult "A" "knows" "B"])).
Proof. split; reflexivity. Qed.

(** * Further properties of the server *)

(** ** What a query returns *)

Lemma contains_empty s : contains "" s = true.
Proof. by destruct s. Qed.



(** The entity scan, from any point of the loop at which it has not yet
    stopped: [results] is empty or still below the limit. *)
Lemma query_entities_take query limit (items : list (string * entity_data))
    (results : list query_result) :
  Z.of_nat (length results) < limit \/ results = [] ->
  query_entities query limit items results
  = results
    ++ take (Z.to_nat (Z.max 1 limit) - length results)
            (map entity_result
                 (filter (fun kv => entity_matches query kv = true) items)).
Proof.
  revert results. induction items as [|[id d] items IH]; intros results Hres.
  - simpl. by rewrite take_nil, app_nil_r.
  - cbn [query_entities]. rewrite filter_cons.
    change (contains query (lower id) || contains query (lower (ent_type d)))
      with (entity_matches query (id, d)).
    destruct (entity_matches query (id, d)) eqn:Hm.
    + rewrite decide_True by done. cbn [map].
      change (EntityResult id (ent_type d) (ent_properties d))
        with (entity_result (id, d)).
      destruct (Z.geb_spec (Z.of_nat (length (results ++ [entity_result (id, d)])))
                           limit) as [Hge|Hlt].
      * rewrite length_app in Hge. simpl in Hge.
        replace (Z.to_nat (Z.max 1 limit) - length results)%nat with 1%nat.
        { done. }
        destruct Hres as [Hres| ->]; simpl in *; lia.
      * rewrite IH by (by left). rewrite length_app in *. simpl in Hlt. simpl.
        replace (Z.to_nat (Z.max 1 limit) - length results)%nat
          with (S (Z.to_nat (Z.max 1 limit) - (length results + 1)))%nat by lia.
        simpl. by rewrite <- app_assoc.
    + rewrite decide_False by done. by apply IH.
Qed.

Lemma query_relations_take query limit (rels : list relation_data)
    (results : list query_result) :
  Z.of_nat (length results) < limit \/ results = [] ->
  query_relations query limit rels results
  = results
    ++ take (Z.to_nat (Z.max 1 limit) - length results)
            (map relation_result
                 (filter (fun rel => relation_matches query rel = true) rels)).
Proof.
  revert results. induction rels as [|rel rels IH]; intros results Hres.
  - simpl. by rewrite take_nil, app_nil_r.
  - cbn [query_relations]. rewrite filter_cons.
    change (contains query (lower (rel_relation rel)))
      with (relation_matches query rel).
    destruct (relation_matches query rel) eqn:Hm.
    + rewrite decide_True by done. cbn [map].
      change (RelationResult (rel_from rel) (rel_relation rel) (rel_to rel))
        with (relation_result rel).
      destruct (Z.geb_spec (Z.of_nat (length (results ++ [relation_result rel])))
                           limit) as [Hge|Hlt].
      * rewrite length_app in Hge. simpl in Hge.
        replace (Z.to_nat (Z.max 1 limit) - length results)%nat with 1%nat.
        { done. }
        destruct Hres as [Hres| ->]; simpl in *; lia.
      * rewrite IH by (by left). rewrite length_app in *. simpl in Hlt. simpl.
        replace (Z.to_nat (Z.max 1 limit) - length results)%nat
          with (S (Z.to_nat (Z.max 1 limit) - (length results + 1)))%nat by lia.
        simpl. by rewrite <- app_assoc.
    + rewrite decide_False by done. by apply IH.
Qed.



(** X3. The empty query text matches everything: with a limit of at least
    1 an entity query returns [min limit entities_count] results and a
    relation query [min limit relations_count]. *)
Theorem query_empty_text_count now kg limit :
  1 <= limit ->
  Z.of_nat (length (results_of
              (call_tool now (kg_query "" (Some "entity") (Some limit)) kg)))
  = Z.min limit (len (entities kg))
  /\ Z.of_nat (length (results_of
                 (call_tool now (kg_query "" (Some "relation") (Some limit)) kg)))
     = Z.min limit (Z.of_nat (length (relations kg))).
Proof.
  intros Hlim. unfold results_of, call_tool. simpl. unfold len. split.
  - rewrite query_entities_take by (by right). simpl.
    rewrite filter_keeps_all
      by (intros [id d] _; unfold entity_matches; by rewrite contains_empty).
    rewrite length_take, length_map. lia.
  - rewrite query_relations_take by (by right). simpl.
    rewrite filter_keeps_all
      by (intros rel _; unfold relation_matches; by rewrite contains_empty).
    rewrite length_take, length_map. lia.
Qed.

Lemma query_empty_text_count_witness :
  Z.of_nat (length (results_of
              (call_tool "t6" (kg_query "" (Some "entity") (Some 2))
                         scenario_graph)))
  = Z.min 2 (len (entities scenario_graph))
  /\ Z.of_nat (length (results_of
                 (call_tool "t6" (kg_query "" (Some "relation") (Some 2))
                            scenario_graph)))
     = Z.min 2 (Z.of_nat (length (relations scenario_graph))).
Proof. apply (query_empty_text_count "t6" scenario_graph 2). lia. Defined.


(** X5. A query type other than [entity] and [relation] (the schema also
    lists [path]) is not an error: the answer has no results and the state
    is unchanged. *)
Theorem query_other_type_is_empty now kg q query_type limit :
  query_type <> "entity" ->
  query_type <> "relation" ->
  call_tool now (kg_query q (Some query_type) limit) kg
  = (kg, Return (QueryJson q [])).
Proof.
  intros He Hr. unfold call_tool. simpl.
  apply String.eqb_neq in He, Hr. by rewrite He, Hr.
Qed.

Lemma query_other_type_is_empty_witness :
  call_tool "t6" (kg_query "a" (Some "path") (Some 5)) scenario_graph
  = (scenario_graph, Return (QueryJson "a" [])).
Proof.
  apply (query_other_type_is_empty "t6" scenario_graph "a" "path" (Some 5));
    discriminate.
Defined.

(** ** What the traversal collects *)

Lemma adjacent_sym rels a b : adjacent rels a b -> adjacent rels b a.
Proof. intros (rel & Hin & H). exists rel. tauto. Qed.

Lemma adjacent_mono rels rels' a b :
  rels ⊆ rels' -> adjacent rels a b -> adjacent rels' a b.
Proof. intros Hsub (rel & Hin & H). exists rel. auto. Qed.

Lemma walk_mono rels rels' n a b :
  rels ⊆ rels' -> walk rels n a b -> walk rels' n a b.
Proof.
  intros Hsub. revert b. induction n as [|n IH]; intros b; simpl; [done|].
  intros (c & Hw & Ha). exists c. eauto using adjacent_mono.
Qed.

(** A walk can also be split at its first step. *)
Lemma walk_first rels n a b :
  walk rels (S n) a b <-> exists c, adjacent rels a c /\ walk rels n c b.
Proof.
  revert b. induction n as [|n IH]; intros b.
  - simpl. split.
    + intros (c & -> & Ha). eauto.
    + intros (c & Ha & ->). eauto.
  - change (walk rels (S (S n)) a b)
      with (exists c, walk rels (S n) a c /\ adjacent rels c b).
    split.
    + intros (c & (c' & Ha & Hw)%IH & Hc). exists c'. split; [done|].
      simpl. eauto.
    + intros (c' & Ha & c & Hw & Hc). exists c. split; [|done].
      apply IH. eauto.
Qed.

Lemma walk_sym rels n a b : walk rels n a b -> walk rels n b a.
Proof.
  revert a b. induction n as [|n IH]; intros a b; [by intros ->|].
  intros (c & Hw & Ha). apply walk_first. exists c.
  split; [by apply adjacent_sym | by apply IH].
Qed.

Lemma bfs_round_spec rels st x :
  (x ∈ (bfs_round rels st).1
   <-> x ∈ st.1 \/ exists c, c ∈ st.2 /\ adjacent rels c x)
  /\ (x ∈ (bfs_round rels st).2 <-> exists c, c ∈ st.2 /\ adjacent rels c x).
Proof.
  assert (Hp : (exists rel, rel ∈ rels /\ picked st.2 rel x)
               <-> exists c, c ∈ st.2 /\ adjacent rels c x).
  { unfold picked, adjacent. split.
    - intros (rel & Hin & [[Hc ->]|[Hc ->]]).
      + exists (rel_from rel). split; [done|]. exists rel. auto.
      + exists (rel_to rel). split; [done|]. exists rel. auto.
    - intros (c & Hc & rel & Hin & [[<- <-]|[<- <-]]); exists rel; auto. }
  unfold bfs_round.
  destruct (scan_relations_spec st.2 rels (st.1, ∅) x) as [H1 H2].
  rewrite H1, H2, Hp. simpl. split; [done|].
  split; [intros [[]%elem_of_empty|]; done | auto].
Qed.

(** After [n] rounds the frontier holds the ends of the walks of length [n]
    from the initial frontier, and [neighbors] has gained the ends of the
    walks of length 1 to [n]. *)
Lemma bfs_rounds_walk n rels (seen front : gset string) :
  forall x,
    (x ∈ (bfs_rounds n rels (seen, front)).2
     <-> exists a, a ∈ front /\ walk rels n a x)
    /\ (x ∈ (bfs_rounds n rels (seen, front)).1
        <-> x ∈ seen
            \/ exists a k, a ∈ front /\ (1 <= k <= n)%nat /\ walk rels k a x).
Proof.
  induction n as [|n IH]; intros x.
  - simpl. split.
    + split; [intros Hx; by exists x | by intros (a & Ha & <-)].
    + split; [auto | intros [?|(a & k & _ & Hk & _)]; [done|lia]].
  - rewrite bfs_rounds_succ.
    destruct (bfs_round_spec rels (bfs_rounds n rels (seen, front)) x)
      as [H1 H2].
    rewrite H1, H2. clear H1 H2. split.
    + split.
      * intros (c & (a & Ha & Hw)%IH & Hc). exists a. split; [done|].
        simpl. eauto.
      * intros (a & Ha & c & Hw & Hc). exists c. split; [|done].
        apply IH. eauto.
    + split.
      * intros [[Hx|(a & k & Ha & Hk & Hw)]%IH|(c & (a & Ha & Hw)%IH & Hc)].
        -- by left.
        -- right. exists a, k. split_and!; (done || lia).
        -- right. exists a, (S n). split_and!; [done|lia|lia|]. simpl. eauto.
      * intros [Hx|(a & k & Ha & Hk & Hw)].
        -- left. apply IH. by left.
        -- destruct (decide (k = S n)) as [->|Hne].
           ++ right. destruct Hw as (c & Hw & Hc). exists c. split; [|done].
              apply IH. eauto.
           ++ left. apply IH. right. exists a, k. split_and!; (done || lia).
Qed.

(** The ids that an answer to [kg_get_neighbors] lists. *)
Lemma neighbor_ids_spec now kg e depth x :
  mem e (entities kg) = true ->
  x ∈ neighbor_ids (call_tool now (kg_get_neighbors e (Some depth)) kg)
  <-> x <> e
      /\ mem x (entities kg) = true
      /\ exists k, (1 <= k <= Z.to_nat depth)%nat /\ walk (relations kg) k e x.
Proof.
  intros He. unfold neighbor_ids. rewrite neighbors_answer by done. simpl.
  rewrite neighbor_data_ids, list_elem_of_filter, elem_of_elements.
  rewrite elem_of_difference, elem_of_singleton.
  destruct (bfs_rounds_walk (Z.to_nat depth) (relations kg) ∅ {[e]} x)
    as [_ ->].
  split.
  - intros (Hm & [[]%elem_of_empty|(a & k & ->%elem_of_singleton & Hk & Hw)]
            & Hne).
    eauto.
  - intros (Hne & Hm & k & Hk & Hw). split_and!; [done| |done].
    right. exists e, k. by rewrite elem_of_singleton.
Qed.

(** X6. For an existing start entity and any depth, [kg_get_neighbors]
    lists, without repeating an id, exactly the stored ids other than the
    start that a chain of at least 1 and at most [depth] relations joins to
    it, each relation taken in either direction; every id comes with its
    stored type. *)
Theorem neighbors_by_walks now kg e depth :
  mem e (entities kg) = true ->
  exists ns,
    call_tool now (kg_get_neighbors e (Some depth)) kg
    = (kg, Return (NeighborsJson e depth ns))
    /\ NoDup (map nb_id ns)
    /\ (forall n, n ∈ ns
          <-> nb_id n <> e
              /\ (exists k, (1 <= k <= Z.to_nat depth)%nat
                            /\ walk (relations kg) k e (nb_id n))
              /\ (exists d, get (nb_id n) (entities kg) = Some d
                            /\ nb_type n = ent_type d)).
Proof.
  intros He. eexists. split; [by apply neighbors_answer|]. split.
  - rewrite neighbor_data_ids. apply NoDup_filter, NoDup_elements.
  - intros n. rewrite elem_of_neighbor_data, elem_of_elements.
    rewrite elem_of_difference, elem_of_singleton.
    destruct (bfs_rounds_walk (Z.to_nat depth) (relations kg) ∅ {[e]} (nb_id n))
      as [_ ->].
    split.
    + intros [[[[]%elem_of_empty|(a & k & ->%elem_of_singleton & Hk & Hw)] Hne]
              Hd].
      eauto.
    + intros (Hne & (k & Hk & Hw) & Hd). split_and!; [|done|done].
      right. exists e, k. by rewrite elem_of_singleton.
Qed.

Lemma neighbors_by_walks_witness :
  exists ns,
    call_tool "t6" (kg_get_neighbors "A" (Some 2)) scenario_graph
    = (scenario_graph, Return (NeighborsJson "A" 2 ns))
    /\ NoDup (map nb_id ns)
    /\ (forall n, n ∈ ns
          <-> nb_id n <> "A"
              /\ (exists k, (1 <= k <= Z.to_nat 2)%nat
                            /\ walk (relations scenario_graph) k "A" (nb_id n))
              /\ (exists d, get (nb_id n) (entities scenario_graph) = Some d
                            /\ nb_type n = ent_type d)).
Proof. apply (neighbors_by_walks "t6" scenario_graph "A" 2). reflexivity. Defined.

(** X7. Being a neighbor is symmetric at every depth: for two stored
    entities, [d] is listed for [e] exactly when [e] is listed for [d]. *)
Theorem neighbors_symmetric now kg e d depth :
  mem e (entities kg) = true ->
  mem d (entities kg) = true ->
  d ∈ neighbor_ids (call_tool now (kg_get_neighbors e (Some depth)) kg)
  <-> e ∈ neighbor_ids (call_tool now (kg_get_neighbors d (Some depth)) kg).
Proof.
  intros He Hd. rewrite !neighbor_ids_spec by done.
  split; intros (Hne & _ & k & Hk & Hw); split_and!; try done;
    exists k; split; try done; by apply walk_sym.
Qed.

Lemma neighbors_symmetric_witness :
  "C" ∈ neighbor_ids (call_tool "t6" (kg_get_neighbors "A" (Some 2))
                                scenario_graph)
  <-> "A" ∈ neighbor_ids (call_tool "t6" (kg_get_neighbors "C" (Some 2))
                                    scenario_graph).
Proof.
  apply (neighbors_symmetric "t6" scenario_graph "A" "C" 2); reflexivity.
Defined.



(** ** How the store evolves *)

Lemma set_set {V} (k : string) (v v' : V) (d : odict V) :
  set k v' (set k v d) = set k v' d.
Proof.
  induction d as [|[k0 v0] d IH]; simpl.
  - by rewrite String.eqb_refl.
  - destruct (String.eqb k k0) eqn:E; simpl; rewrite E; [done|].
    by rewrite IH.
Qed.

(** X9. Adding an entity twice under one id is last-write-wins for the
    whole state: the earlier record (type, properties, creation time)
    leaves no trace and the id keeps one position in the map. *)
Theorem add_entity_twice now now' kg e t p t' p' :
  (call_tool now' (kg_add_entity e t' p')
             (call_tool now (kg_add_entity e t p) kg).1).1
  = (call_tool now' (kg_add_entity e t' p') kg).1.
Proof. simpl. by rewrite set_set. Qed.

Lemma call_tool_grows now req kg :
  relations kg `prefix_of` relations (call_tool now req kg).1
  /\ keys (entities kg) `prefix_of` keys (entities (call_tool now req kg).1).
Proof.
  destruct req as [e t p|f r t p|q qt l|e d| |n]; simpl; try done.
  - split; [done|]. rewrite keys_set.
    destruct (mem e (entities kg)); [done|]. by apply prefix_app_r.
  - destruct (mem f (entities kg)); simpl; [|done].
    destruct (mem t (entities kg)); simpl; [|done].
    split; [|done]. by apply prefix_app_r.
  - by destruct (mem e (entities kg)).
Qed.

Lemma serve_grows reqs kg :
  relations kg `prefix_of` relations (serve reqs kg).1
  /\ keys (entities kg) `prefix_of` keys (entities (serve reqs kg).1).
Proof.
  revert kg. induction reqs as [|[now req] reqs IH]; intros kg; [done|].
  rewrite serve_cons. simpl fst.
  destruct (call_tool_grows now req kg) as [H1 H2].
  destruct (IH (call_tool now req kg).1) as [H3 H4].
  split; etrans; eauto.
Qed.

Lemma serve_keeps_ids reqs kg e :
  mem e (entities kg) = true -> mem e (entities (serve reqs kg).1) = true.
Proof.
  destruct (serve_grows reqs kg) as [_ [k Hk]].
  rewrite !mem_keys, Hk, elem_of_app. auto.
Qed.

(** X10. The store is append-only: after any sequence of requests the old
    relation log is a prefix of the new one (no record is removed, changed
    or reordered) and the old ids are a prefix of the new ids, in their old
    order. *)
Theorem store_is_append_only reqs kg :
  relations kg `prefix_of` relations (serve reqs kg).1
  /\ keys (entities kg) `prefix_of` keys (entities (serve reqs kg).1)
  /\ (forall e, mem e (entities kg) = true ->
                mem e (entities (serve reqs kg).1) = true).
Proof.
  destruct (serve_grows reqs kg) as [H1 H2]. split_and!; [done|done|].
  intros e. apply serve_keeps_ids.
Qed.

(** X11. Requests that are not [kg_add_entity] or [kg_add_relation]
    (queries, traversals, statistics, unknown tools) can be dropped from a
    run without changing the graph it ends in. *)
Theorem reads_can_be_dropped reqs kg :
  (serve reqs kg).1
  = (serve (filter (fun nr => is_mutation nr.2 = true) reqs) kg).1.
Proof.
  revert kg. induction reqs as [|[now req] reqs IH]; intros kg; [done|].
  rewrite filter_cons, serve_cons. simpl fst. simpl snd.
  destruct (is_mutation req) eqn:Hm.
  - rewrite decide_True by done. rewrite serve_cons. simpl. apply IH.
  - rewrite decide_False by done. rewrite IH. f_equal. f_equal.
    destruct req as [e t p|f r t p|q qt l|e d| |n]; try done.
    simpl. by destruct (mem e (entities kg)).
Qed.

(** X12. A confirmed relation shows in the traversal at once: after
    [kg_add_relation] between two distinct stored entities, each of them is
    listed among the neighbors of the other at every depth of at least 1. *)
Theorem add_relation_links now now' kg a r b p depth :
  mem a (entities kg) = true ->
  mem b (entities kg) = true ->
  a <> b ->
  1 <= depth ->
  let kg' := (call_tool now (kg_add_relation a r b p) kg).1 in
  b ∈ neighbor_ids (call_tool now' (kg_get_neighbors a (Some depth)) kg')
  /\ a ∈ neighbor_ids (call_tool now' (kg_get_neighbors b (Some depth)) kg').
Proof.
  intros Ha Hb Hne Hd kg'.
  assert (Hkg : kg' = mk_graph (entities kg)
                        (relations kg ++ [mk_relation a r b (default [] p) now])).
  { unfold kg', call_tool. by rewrite Ha, Hb. }
  assert (Hadj : adjacent (relations kg') a b).
  { exists (mk_relation a r b (default [] p) now). rewrite Hkg. simpl.
    rewrite elem_of_app, list_elem_of_singleton. auto. }
  assert (Ha' : mem a (entities kg') = true) by (by rewrite Hkg).
  assert (Hb' : mem b (entities kg') = true) by (by rewrite Hkg).
  rewrite !neighbor_ids_spec by done. split.
  - split_and!; [done|done|]. exists 1%nat. split; [lia|]. simpl. eauto.
  - split_and!; [done|done|]. exists 1%nat. split; [lia|]. simpl.
    eauto using adjacent_sym.
Qed.

Lemma add_relation_links_witness :
  let kg' := (call_tool "t6" (kg_add_relation "A" "knows" "C" None)
                        scenario_graph).1 in
  "C" ∈ neighbor_ids (call_tool "t7" (kg_get_neighbors "A" (Some 1)) kg')
  /\ "A" ∈ neighbor_ids (call_tool "t7" (kg_get_neighbors "C" (Some 1)) kg').
Proof.
  apply (add_relation_links "t6" "t7" scenario_graph "A" "knows" "C" None 1);
    [reflexivity|reflexivity|discriminate|lia].
Defined.

(** X13. Neighbors are never lost: whatever requests are served in
    between, every id listed for a stored entity at some depth is still
    listed for it at that depth afterwards. *)
Theorem neighbors_only_grow now now' reqs kg e depth :
  mem e (entities kg) = true ->
  neighbor_ids (call_tool now (kg_get_neighbors e (Some depth)) kg)
  ⊆ neighbor_ids (call_tool now' (kg_get_neighbors e (Some depth))
                            (serve reqs kg).1).
Proof.
  intros He x.
  rewrite !neighbor_ids_spec by (done || by apply serve_keeps_ids).
  intros (Hne & Hx & k & Hk & Hw). split_and!; [done| |].
  - by apply serve_keeps_ids.
  - exists k. split; [done|]. eapply walk_mono; [|done].
    destruct (serve_grows reqs kg) as [[l ->] _].
    intros rel. rewrite elem_of_app. auto.
Qed.

Lemma neighbors_only_grow_witness :
  neighbor_ids (call_tool "t6" (kg_get_neighbors "A" (Some 1)) scenario_graph)
  ⊆ neighbor_ids
      (call_tool "t8" (kg_get_neighbors "A" (Some 1))
         (serve [("t7", kg_add_relation "A" "knows" "C" None)] scenario_graph).1).
Proof.
  apply (neighbors_only_grow "t6" "t8"
           [("t7", kg_add_relation "A" "knows" "C" None)] scenario_graph "A" 1).
  reflexivity.
Defined.

(** ** Histogram totals *)

Lemma total_count_in h k : total (count_in h k) = total h + 1.
Proof.
  unfold count_in, total, values. induction h as [|[k0 v0] h IH]; simpl.
  - lia.
  - destruct (String.eqb k k0); simpl; [lia|]. rewrite IH. lia.
Qed.

Section Totals.
Context {A : Type} (f : A -> string).

Lemma total_fold (xs : list A) (h : odict Z) :
  total (fold_left (fun h x => count_in h (f x)) xs h)
  = total h + Z.of_nat (length xs).
Proof.
  revert h. induction xs as [|x xs IH]; intros h; simpl; [lia|].
  rewrite IH, total_count_in. lia.
Qed.

Lemma keys_fold_NoDup (xs : list A) (h : odict Z) :
  NoDup (keys h) ->
  NoDup (keys (fold_left (fun h x => count_in h (f x)) xs h)).
Proof.
  revert h. induction xs as [|x xs IH]; intros h Hnd; simpl; [done|].
  apply IH. unfold count_in. by apply keys_set_NoDup.
Qed.
End Totals.

(** X14. In every state the counts of the entity-type histogram add up to
    [entities_count] and those of the relation-label histogram to
    [relations_count]; neither histogram lists a category twice. *)
Theorem stats_totals now kg :
  exists s,
    call_tool now kg_stats kg = (kg, Return (StatsJson s))
    /\ total (entity_types s) = entities_count s
    /\ total (relation_types s) = relations_count s
    /\ NoDup (keys (entity_types s))
    /\ NoDup (keys (relation_types s)).
Proof.
  exists (stats_of kg). split; [done|]. simpl.
  unfold entity_type_counts, relation_type_counts. split_and!.
  - rewrite (total_fold ent_type). unfold values, len.
    by rewrite length_map.
  - by rewrite (total_fold rel_relation).
  - apply (keys_fold_NoDup ent_type). constructor.
  - apply (keys_fold_NoDup rel_relation). constructor.
Qed.

(** ** Dispatch on the tool name and the argument bag *)

Lemma call_tool_returns now req kg :
  (forall name, req <> unknown_tool name) ->
  exists c, (call_tool now req kg).2 = Return c.
Proof.
  intros Hreq. destruct req as [e t p|f r t p|q qt l|e d| |n]; simpl; eauto.
  - destruct (mem f (entities kg)); simpl; eauto.
    destruct (mem t (entities kg)); simpl; eauto.
  - destruct (mem e (entities kg)); simpl; eauto.
  - by destruct (Hreq n).
Qed.

Lemma served_returns now req kg kg' exc :
  (forall name, req <> unknown_tool name) ->
  served (call_tool now req kg) <> Served kg' (Raise exc).
Proof.
  intros Hreq. destruct (call_tool_returns now req kg Hreq) as [c Hc].
  unfold served. rewrite Hc. congruence.
Qed.

Ltac split_name name :=
  unfold call_tool_raw;
  destruct (String.eqb_spec name "kg_add_entity") as [->|?];
  [|destruct (String.eqb_spec name "kg_add_relation") as [->|?];
    [|destruct (String.eqb_spec name "kg_query") as [->|?];
      [|destruct (String.eqb_spec name "kg_get_neighbors") as [->|?];
        [|destruct (String.eqb_spec name "kg_stats") as [->|?]]]]].

(** X15. [call_tool] handles exactly the tools that [list_tools]
    announces: for any other name it raises [ValueError] with the message
    [Unknown tool: name], whatever the arguments, and leaves the state
    alone; for an announced name it never raises that error. *)
Theorem dispatch_matches_list_tools now name arguments kg :
  (name ∉ map tool_name list_tools ->
   call_tool_raw now name arguments kg
   = Served kg (Raise ("Unknown tool: " +:+ name)))
  /\ (name ∈ map tool_name list_tools ->
      forall kg' exc,
        call_tool_raw now name arguments kg <> Served kg' (Raise exc)).
Proof.
  split.
  - intros Hnot. simpl in Hnot. rewrite !not_elem_of_cons in Hnot.
    destruct Hnot as (H1 & H2 & H3 & H4 & H5 & _).
    unfold call_tool_raw.
    apply String.eqb_neq in H1, H2, H3, H4, H5.
    by rewrite H1, H2, H3, H4, H5.
  - intros Hin kg' exc. split_name name.
    + destruct (get "entity" arguments) as [e|]; [|done].
      destruct (get "type" arguments) as [t|]; [|done].
      destruct (as_string e), (as_string t),
               (optional as_object "properties" arguments); try done;
        by apply served_returns.
    + destruct (get "from_entity" arguments) as [f|]; [|done].
      destruct (get "to_entity" arguments) as [t|]; [|done].
      destruct (get "relation" arguments) as [r|]; [|done].
      destruct (as_string f), (as_string r), (as_string t),
               (optional as_object "properties" arguments); try done;
        by apply served_returns.
    + destruct (get "query" arguments) as [q|]; [|done].
      destruct (as_string q), (optional as_string "query_type" arguments),
               (optional as_number "limit" arguments); try done;
        by apply served_returns.
    + destruct (get "entity" arguments) as [e|]; [|done].
      destruct (as_string e), (optional as_number "depth" arguments);
        try done;
        by apply served_returns.
    + by apply served_returns.
    + simpl in Hin. rewrite !elem_of_cons in Hin.
      destruct Hin as [?|[?|[?|[?|[?|Hin]]]]]; try done.
      by apply elem_of_nil in Hin.
Qed.

Lemma dispatch_matches_list_tools_witness :
  call_tool_raw "t6" "kg_delete" [("entity", JStr "A")] scenario_graph
  = Served scenario_graph (Raise "Unknown tool: kg_delete").
Proof.
  apply (dispatch_matches_list_tools "t6" "kg_delete" [("entity", JStr "A")]
           scenario_graph).
  intros Hin. simpl in Hin.
  repeat (apply elem_of_cons in Hin as [?|Hin]; [discriminate|]).
  by apply elem_of_nil in Hin.
Defined.

(** X16. A [KeyError] names a key that the tool's schema lists as required
    and that is missing from the bag; conversely a call to an announced
    tool with a required key missing raises [KeyError]. *)
Theorem key_error_is_missing_required now name arguments kg :
  (forall key,
      call_tool_raw now name arguments kg = KeyError key ->
      exists t, t ∈ list_tools /\ tool_name t = name
                /\ key ∈ tool_required t /\ get key arguments = None)
  /\ (forall t key,
        t ∈ list_tools -> tool_name t = name ->
        key ∈ tool_required t -> get key arguments = None ->
        exists key', call_tool_raw now name arguments kg = KeyError key').
Proof.
  split.
  - intros key. split_name name.
    + intros H. exists (mk_tool "kg_add_entity" "Add entity to knowledge graph"
        [ mk_field "entity" "string" "Entity name/ID" None None;
          mk_field "type" "string"
                   "Entity type (person, concept, event, etc.)" None None;
          mk_field "properties" "object" "Additional properties" None None ]
        ["entity"; "type"]).
      split; [left|]. split; [done|]. simpl. rewrite !elem_of_cons.
      destruct (get "entity" arguments) as [e|] eqn:Ee;
        [|injection H as <-; auto].
      destruct (get "type" arguments) as [t|] eqn:Et;
        [|injection H as <-; auto].
      by destruct (as_string e), (as_string t),
                  (optional as_object "properties" arguments).
    + intros H. exists (mk_tool "kg_add_relation"
        "Add relation between entities in the graph"
        [ mk_field "from_entity" "string" "Source entity" None None;
          mk_field "relation" "string"
                   "Relation type (knows, related_to, causes, etc.)" None None;
          mk_field "to_entity" "string" "Target entity" None None;
          mk_field "properties" "object" "Relation metadata" None None ]
        ["from_entity"; "relation"; "to_entity"]).
      split; [right; left|]. split; [done|]. simpl. rewrite !elem_of_cons.
      destruct (get "from_entity" arguments) as [f|] eqn:Ef;
        [|injection H as <-; auto].
      destruct (get "to_entity" arguments) as [t|] eqn:Et;
        [|injection H as <-; auto].
      destruct (get "relation" arguments) as [r|] eqn:Er;
        [|injection H as <-; auto].
      by destruct (as_string f), (as_string r), (as_string t),
                  (optional as_object "properties" arguments).
    + intros H. exists (mk_tool "kg_query"
        "Query knowledge graph for entities and relations"
        [ mk_field "query" "string" "Query string (entity name or pattern)"
                   None None;
          mk_field "query_type" "string" "Type of query"
                   (Some (JStr "entity")) (Some ["entity"; "relation"; "path"]);
          mk_field "limit" "number" "Max results" (Some (JNum 10)) None ]
        ["query"]).
      split; [do 2 right; left|]. split; [done|]. simpl. rewrite !elem_of_cons.
      destruct (get "query" arguments) as [q|] eqn:Eq;
        [|injection H as <-; auto].
      by destruct (as_string q), (optional as_string "query_type" arguments),
                  (optional as_number "limit" arguments).
    + intros H. exists (mk_tool "kg_get_neighbors"
        "Get neighboring entities (connected by relations)"
        [ mk_field "entity" "string" "Entity to find neighbors for" None None;
          mk_field "depth" "number" "Search depth (hops)" (Some (JNum 1)) None ]
        ["entity"]).
      split; [do 3 right; left|]. split; [done|]. simpl. rewrite !elem_of_cons.
      destruct (get "entity" arguments) as [e|] eqn:Ee;
        [|injection H as <-; auto].
      by destruct (as_string e), (optional as_number "depth" arguments).
    + done.
    + done.
  - intros t key Ht <-. unfold list_tools in Ht. rewrite !elem_of_cons in Ht.
    destruct Ht as [->|[->|[->|[->|[->|?%elem_of_nil]]]]]; [..|done];
      unfold call_tool_raw; simpl; intros Hkey Hget;
      rewrite ?elem_of_cons in Hkey.
    + destruct Hkey as [->|[->|?%elem_of_nil]]; [| |done].
      * rewrite Hget. eauto.
      * rewrite Hget. destruct (get "entity" arguments); eauto.
    + destruct Hkey as [->|[->|[->|?%elem_of_nil]]]; [| | |done];
        rewrite Hget.
      * eauto.
      * destruct (get "from_entity" arguments); eauto.
        destruct (get "to_entity" arguments); eauto.
      * destruct (get "from_entity" arguments); eauto.
    + destruct Hkey as [->|?%elem_of_nil]; [|done]. rewrite Hget. eauto.
    + destruct Hkey as [->|?%elem_of_nil]; [|done]. rewrite Hget. eauto.
    + by apply elem_of_nil in Hkey.
Qed.

Lemma key_error_is_missing_required_witness :
  exists t, t ∈ list_tools /\ tool_name t = "kg_add_entity"
            /\ "type" ∈ tool_required t
            /\ get "type" [("entity", JStr "A")] = None.
Proof.
  apply (key_error_is_missing_required "t6" "kg_add_entity"
           [("entity", JStr "A")] scenario_graph).
  reflexivity.
Defined.

Lemma optional_missing {A} (as_type : json -> option A) key arguments :
  get key arguments = None -> optional as_type key arguments = Some None.
Proof. unfold optional. by intros ->. Qed.

Lemma optional_set_eq {A} (as_type : json -> option A) key v arguments :
  optional as_type key (set key v arguments)
  = match as_type v with Some a => Some (Some a) | None => None end.
Proof. unfold optional. by rewrite get_set_eq. Qed.

Lemma optional_set_ne {A} (as_type : json -> option A) key key' v arguments :
  key <> key' ->
  optional as_type key' (set key v arguments) = optional as_type key' arguments.
Proof. intros Hne. unfold optional. by rewrite get_set_ne. Qed.

(** X17. The defaults that the schemas declare are the defaults that the
    code uses: when a field with a declared default is missing from the
    bag, the call behaves as if the field were present with that default. *)
Theorem schema_defaults_are_used now t f v arguments kg :
  t ∈ list_tools ->
  f ∈ tool_properties t ->
  field_default f = Some v ->
  get (field_name f) arguments = None ->
  call_tool_raw now (tool_name t) (set (field_name f) v arguments) kg
  = call_tool_raw now (tool_name t) arguments kg.
Proof.
  intros Ht. unfold list_tools in Ht. rewrite !elem_of_cons in Ht.
  destruct Ht as [->|[->|[->|[->|[->|?%elem_of_nil]]]]]; [..|done];
    simpl; rewrite ?elem_of_cons; intros Hf Hdef Hget.
  - by destruct Hf as [->|[->|[->|?%elem_of_nil]]].
  - by destruct Hf as [->|[->|[->|[->|?%elem_of_nil]]]].
  - destruct Hf as [->|[->|[->|?%elem_of_nil]]]; [done| | |done];
      simpl in *; injection Hdef as <-; unfold call_tool_raw; simpl.
    + rewrite get_set_ne by done.
      rewrite optional_set_eq, (optional_set_ne _ "query_type" "limit") by done.
      by rewrite (optional_missing _ "query_type").
    + rewrite get_set_ne by done.
      rewrite optional_set_eq, (optional_set_ne _ "limit" "query_type") by done.
      by rewrite (optional_missing _ "limit").
  - destruct Hf as [->|[->|?%elem_of_nil]]; [done| |done].
    simpl in *. injection Hdef as <-. unfold call_tool_raw. simpl.
    rewrite get_set_ne by done. rewrite optional_set_eq.
    by rewrite (optional_missing _ "depth").
  - by apply elem_of_nil in Hf.
Qed.

Lemma schema_defaults_are_used_witness :
  call_tool_raw "t6" "kg_get_neighbors"
                (set "depth" (JNum 1) [("entity", JStr "A")]) scenario_graph
  = call_tool_raw "t6" "kg_get_neighbors" [("entity", JStr "A")] scenario_graph.
Proof.
  apply (schema_defaults_are_used "t6"
           (mk_tool "kg_get_neighbors"
              "Get neighboring entities (connected by relations)"
              [ mk_field "entity" "string" "Entity to find neighbors for"
                         None None;
                mk_field "depth" "number" "Search depth (hops)"
                         (Some (JNum 1)) None ]
              ["entity"])
           (mk_field "depth" "number" "Search depth (hops)" (Some (JNum 1)) None)
           (JNum 1) [("entity", JStr "A")] scenario_graph).
  - unfold list_tools. do 3 right. left.
  - simpl. right. left.
  - reflexivity.
  - reflexivity.
Defined.









(** ** Adding, then querying *)





